(** * PythonPerformance.ipynb: the two numeric kernels of the notebook

    The notebook benchmarks a Monte Carlo estimator of pi ([estimate_pi], in a
    naive loop, a vectorized numpy, a numba and a Julia variant) and the Lorenz
    vector field ([lorenz], and its in-place Julia twin [f]) that is handed to
    an ODE solver.

    The kernels are written once, over an interface [Number] of the
    arithmetic they use.  Two instances are given:
    - [Number_float]: IEEE binary64, the type the notebook runs on; it
      computes, and is used to run the kernels on concrete draws;
    - [Number_R]: the real numbers, exact arithmetic.
    Python's float power [x**2] is the C library's [pow], which is not the
    rounded product [x*x]; it is a second interface, [Power].  Properties
    of the estimator are stated for every arithmetic and every power
    function unless they say that they are about the reals.

    The random generator is an explicit stream of draws with a read
    position, standard output is an explicit list of printed integers, and
    Python exceptions are an explicit outcome. *)

From Stdlib Require Import Floats Uint63.
From Stdlib Require Import ZArith List Bool Lia.
From Stdlib Require Import Reals Lra.
Import ListNotations.

Set Implicit Arguments.

(* ------------------------------------------------------------------ *)
(** ** The arithmetic the kernels use *)

Declare Scope num_scope.
Delimit Scope num_scope with num.

Class Number (A : Type) : Type := {
  of_int : Z -> A;           (* conversion of a Python/Julia integer *)
  half : A;                  (* the literal 0.5 *)
  fadd : A -> A -> A;
  fsub : A -> A -> A;
  fmul : A -> A -> A;
  fdiv : A -> A -> A;        (* IEEE division, no zero check *)
  fsqrt : A -> A;
  fle : A -> A -> bool       (* the comparison <= *)
}.

Notation "x + y" := (fadd x y) : num_scope.
Notation "x - y" := (fsub x y) : num_scope.
Notation "x * y" := (fmul x y) : num_scope.
Notation "x / y" := (fdiv x y) : num_scope.
Notation "x <=? y" := (fle x y) : num_scope.

(** Conversion of an integer to binary64: the nearest float, ties to even,
    as Python and Julia convert.  From 2^1024 on the result is an infinity,
    where Python raises OverflowError; no loop count reaches that. *)
Definition float_of_Z (z : Z) : float :=
  SF2Prim (binary_normalize prec emax z 0 false).

#[export] Instance Number_float : Number float := {|
  of_int := float_of_Z;
  half := 0.5%float;
  fadd := PrimFloat.add;
  fsub := PrimFloat.sub;
  fmul := PrimFloat.mul;
  fdiv := PrimFloat.div;
  fsqrt := PrimFloat.sqrt;
  fle := PrimFloat.leb
|}.

Definition Rleb (x y : R) : bool := if Rle_dec x y then true else false.

#[export] Instance Number_R : Number R := {|
  of_int := IZR;
  half := (1 / 2)%R;
  fadd := Rplus;
  fsub := Rminus;
  fmul := Rmult;
  fdiv := Rdiv;
  fsqrt := R_sqrt.sqrt;
  fle := Rleb
|}.

(** Python's [x**2] on a float: [float.__pow__] converts the exponent and
    calls the C library's [pow(x, 2.0)].  The library is not part of the
    notebook, so its result is a parameter. *)
Class Power (A : Type) : Type := {
  pow_two : A -> A
}.

(** In exact arithmetic the power is the product. *)
#[export] Instance Power_R : Power R := {| pow_two := fun x => (x * x)%R |}.

(** glibc 2.36 on x86-64, on the arguments this file runs it on: [pow]
    returns the rounded product, except at 0x1.86f64f99b4f66p-1, where it
    returns the float above it (the exact square lies between the two). *)
Definition glibc_pow_two (x : float) : float :=
  if PrimFloat.eqb x 0x1.86f64f99b4f66p-1%float
  then 0x1.2a89b3c2b3c36p-1%float
  else PrimFloat.mul x x.

#[export] Instance Power_float : Power float := {| pow_two := glibc_pow_two |}.

(* ------------------------------------------------------------------ *)
(** ** Exceptions, the world, and the monad of the notebook's functions *)

Inductive exn : Type :=
| ZeroDivisionError      (* float division by zero *)
| ValueError             (* negative dimensions; wrong number of values to unpack *)
| BoundsError.           (* Julia: index outside an array *)

Inductive outcome (X : Type) : Type :=
| Return (x : X)
| Raise (e : exn).
Arguments Raise {X} e.

Section Kernels.

Context {A : Type} `{Number A} `{Power A}.
Local Open Scope num_scope.

(** The generator is a stream of uniform draws and the index of the next
    one; [stdout] collects what [print] wrote, oldest first. *)
Record World : Type := mkWorld {
  rng : nat -> A;
  pos : nat;
  stdout : list Z
}.

Definition M (X : Type) : Type := World -> outcome X * World.

Definition ret {X} (x : X) : M X := fun w => (Return x, w).

Definition bind {X Y} (c : M X) (k : X -> M Y) : M Y :=
  fun w => match c w with
           | (Return x, w') => k x w'
           | (Raise e, w') => (Raise e, w')
           end.

Definition raise {X} (e : exn) : M X := fun w => (Raise e, w).

Notation "x <- c ;; k" := (bind c (fun x => k))
  (at level 61, c at next level, right associativity).

(** [np.random.random()] and Julia's [rand()]: the next draw. *)
Definition random : M A :=
  fun w => (Return (rng w (pos w)), mkWorld (rng w) (S (pos w)) (stdout w)).

(** [print(n)] for an integer. *)
Definition print (n : Z) : M unit :=
  fun w => (Return tt, mkWorld (rng w) (pos w) (stdout w ++ [n])).

(** Python's [a / n] for a float [a] and an int [n]. *)
Definition truediv (a : A) (n : Z) : M A :=
  if (n =? 0)%Z then raise ZeroDivisionError else ret (a / of_int n).

(** [x^2] in Julia and [x**2] under numba, both compiled to a product, and
    numpy's [xy**2], which squares each entry by a product. *)
Definition square (x : A) : A := x * x.

(** [for i in range(k): s = body(s)]; the loop index is not read by any
    body of the notebook. *)
Fixpoint for_range {St : Type} (k : nat) (body : St -> M St) (s : St) : M St :=
  match k with
  | O => ret s
  | S k' => s' <- body s ;; for_range k' body s'
  end.

(* ------------------------------------------------------------------ *)
(** ** estimate_pi, the loop variants *)

(** One pass of the loop body of the naive Python variant: two draws, the
    distance with Python's float power, the test. *)
Definition trial_pow (radius diameter : A) (n_circle : Z) : M Z :=
  u <- random ;;
  let x := (u - half) * diameter in
  v <- random ;;
  let y := (v - half) * diameter in
  let r := fsqrt (pow_two x + pow_two y) in
  if r <=? radius then ret (n_circle + 1)%Z else ret n_circle.

(** One pass of the same body where the power is a product (numba, Julia). *)
Definition trial (radius diameter : A) (n_circle : Z) : M Z :=
  u <- random ;;
  let x := (u - half) * diameter in
  v <- random ;;
  let y := (v - half) * diameter in
  let r := fsqrt (square x + square y) in
  if r <=? radius then ret (n_circle + 1)%Z else ret n_circle.

Definition estimate_pi_naive (nMC : Z) : M A :=
  let radius := of_int 1 in
  let diameter := of_int 2 * radius in
  n_circle <- for_range (Z.to_nat nMC) (trial_pow radius diameter) 0%Z ;;
  truediv (of_int 4 * of_int n_circle) nMC.

(** [@numba.njit] compiles the same source, with the power as a product;
    division by zero still raises (numba's default error model is
    Python's). *)
Definition estimate_pi_numba (nMC : Z) : M A :=
  let radius := of_int 1 in
  let diameter := of_int 2 * radius in
  n_circle <- for_range (Z.to_nat nMC) (trial radius diameter) 0%Z ;;
  truediv (of_int 4 * of_int n_circle) nMC.

(** The Julia variant: [(n_circle/nMC) * 4.], with IEEE division. *)
Definition estimate_pi_julia (nMC : Z) : M A :=
  let radius := of_int 1 in
  let diameter := of_int 2 * radius in
  n_circle <- for_range (Z.to_nat nMC) (trial radius diameter) 0%Z ;;
  ret ((of_int n_circle / of_int nMC) * of_int 4).

(* ------------------------------------------------------------------ *)
(** ** estimate_pi, vectorized with numpy *)

(** One row of [c] draws, then [r] rows, in row-major order. *)
Fixpoint random_row (c : nat) : M (list A) :=
  match c with
  | O => ret []
  | S c' => u <- random ;; us <- random_row c' ;; ret (u :: us)
  end.

Fixpoint random_rows (r c : nat) : M (list (list A)) :=
  match r with
  | O => ret []
  | S r' =>
      row <- random_row c ;; rows <- random_rows r' c ;; ret (row :: rows)
  end.

(** [np.random.random((n, c))]. *)
Definition np_random_random (shape : Z * Z) : M (list (list A)) :=
  let (n, c) := shape in
  if ((n <? 0) || (c <? 0))%Z then raise ValueError
  else random_rows (Z.to_nat n) (Z.to_nat c).

(** Broadcasting a scalar operation over a 2-d array. *)
Definition broadcast (g : A -> A) (m : list (list A)) : list (list A) :=
  map (map g) m.

(** [m.sum(axis=1)]. *)
Definition sum_axis1 (m : list (list A)) : list A :=
  map (fun row => fold_left fadd row (of_int 0)) m.

(** [r[mask]]: the entries of [r] where the mask is true. *)
Fixpoint mask_select (r : list A) (mask : list bool) : list A :=
  match r, mask with
  | x :: r', true :: mask' => x :: mask_select r' mask'
  | _ :: r', false :: mask' => mask_select r' mask'
  | _, _ => []
  end.

Definition estimate_pi_vectorized (nMC : Z) : M A :=
  let radius := of_int 1 in
  let diameter := of_int 2 * radius in
  draws <- np_random_random (nMC, 2%Z) ;;
  let xy := broadcast (fun u => (u - half) * diameter) draws in
  let r := map fsqrt (sum_axis1 (broadcast square xy)) in
  let circle_mask := map (fun ri => ri <=? radius) r in
  let n_circle := Z.of_nat (length (mask_select r circle_mask)) in
  _ <- print n_circle ;;
  truediv (of_int 4 * of_int n_circle) nMC.

(* ------------------------------------------------------------------ *)
(** ** The Lorenz vector field *)

(** [lorenz(u, t, sigma, rho, beta)]; [x, y, z = u] raises unless [u] has
    exactly three entries.  The function takes no world: it neither draws
    nor prints. *)
Definition lorenz (u : list A) (t sigma rho beta : A) : outcome (list A) :=
  match u with
  | [x; y; z] =>
      Return [sigma * (y - x); x * (rho - z) - y; x * y - beta * z]
  | _ => Raise ValueError
  end.

(** Julia arrays, indexed from 1. *)
Definition getindex (a : list A) (i : nat) : outcome A :=
  match i with
  | O => Raise BoundsError
  | S j =>
      match nth_error a j with
      | Some v => Return v
      | None => Raise BoundsError
      end
  end.

Fixpoint replace_nth (a : list A) (j : nat) (v : A) : list A :=
  match a, j with
  | [], _ => []
  | _ :: a', O => v :: a'
  | x :: a', S j' => x :: replace_nth a' j' v
  end.

Definition setindex (a : list A) (v : A) (i : nat) : outcome (list A) :=
  match i with
  | O => Raise BoundsError
  | S j =>
      if (j <? length a)%nat then Return (replace_nth a j v)
      else Raise BoundsError
  end.

Definition obind {X Y} (o : outcome X) (k : X -> outcome Y) : outcome Y :=
  match o with
  | Return x => k x
  | Raise e => Raise e
  end.

Notation "x <~ o ;; k" := (obind o (fun x => k))
  (at level 61, o at next level, right associativity).

(** The in-place field [f(du,u,p,t)] of the Julia cell; the result is the
    array [du] after the three assignments. *)
Definition f (du u p : list A) (t : A) : outcome (list A) :=
  x <~ getindex u 1 ;; y <~ getindex u 2 ;; z <~ getindex u 3 ;;
  sigma <~ getindex p 1 ;; rho <~ getindex p 2 ;; beta <~ getindex p 3 ;;
  du <~ setindex du (sigma * (y - x)) 1 ;;
  du <~ setindex du (x * (rho - z) - y) 2 ;;
  du <~ setindex du (x * y - beta * z) 3 ;;
  Return du.

End Kernels.

Arguments World A : clear implicits.
Arguments M A X : clear implicits.

(* ------------------------------------------------------------------ *)
(** ** One call in closed form

    Trial [i] of a call that starts at read position [p] owns the draws
    [p + 2i] and [p + 2i + 1].  The expressions below are those of the loop
    body and of the array pipeline, applied to the stream directly. *)

Section Sampling.

Context {A : Type} `{Number A} `{Power A}.
Local Open Scope num_scope.

(** A draw in [0,1) moved to the square of side [2 * radius], radius 1,
    centered at the origin. *)
Definition coordinate (u : A) : A := (u - half) * (of_int 2 * of_int 1).

(** Distance from the origin of the point whose draws sit at [q], [q+1],
    computed with products (numba, Julia). *)
Definition distance_at (s : nat -> A) (q : nat) : A :=
  fsqrt (square (coordinate (s q)) + square (coordinate (s (S q)))).

Definition inside_at (s : nat -> A) (q : nat) : bool :=
  distance_at s q <=? of_int 1.

(** Number of the first [k] points, read from position [p] on, that the
    test with products accepts. *)
Definition hits (s : nat -> A) (p k : nat) : Z :=
  Z.of_nat (length (filter (fun i => inside_at s (p + 2 * i)) (seq 0 k))).

Definition advance (w : World A) (n : nat) : World A :=
  mkWorld (rng w) (pos w + n) (stdout w).

(** The array that [np.random.random((k, 2))] returns. *)
Definition sample_rows (s : nat -> A) (p k : nat) : list (list A) :=
  map (fun i => [s (p + 2 * i)%nat; s (S (p + 2 * i))]) (seq 0 k).

(** The count the vectorized variant reads off its arrays. *)
Definition vector_count (s : nat -> A) (p k : nat) : Z :=
  let xy := broadcast (fun u => (u - half) * (of_int 2 * of_int 1))
                      (sample_rows s p k) in
  let r := map fsqrt (sum_axis1 (broadcast square xy)) in
  Z.of_nat (length (mask_select r (map (fun ri => ri <=? of_int 1) r))).

(** The distance [r] of a point [(x, y)] as each variant computes it: with
    Python's float power (naive loop), with products (numba, Julia), and
    with products summed along the row from 0 (numpy). *)
Definition r_pow (x y : A) : A := fsqrt (pow_two x + pow_two y).
Definition r_product (x y : A) : A := fsqrt (square x + square y).
Definition r_row_sum (x y : A) : A :=
  fsqrt (fold_left fadd [square x; square y] (of_int 0)).

(** The test [r <= radius] on point [i] of a call that starts at [p],
    with the distance computed by [r]. *)
Definition accepts (r : A -> A -> A) (s : nat -> A) (p i : nat) : bool :=
  r (coordinate (s (p + 2 * i)%nat)) (coordinate (s (S (p + 2 * i))))
  <=? of_int 1.

(** Number of the first [k] points that the test accepts. *)
Definition hits_by (r : A -> A -> A) (s : nat -> A) (p k : nat) : Z :=
  Z.of_nat (length (filter (accepts r s p) (seq 0 k))).

End Sampling.

(* ------------------------------------------------------------------ *)
(** ** The words of the specification, over the reals *)

Section SpecificationWords.

Local Open Scope R_scope.

Definition radius : R := 1.

(** A pair of draws placed in the square: its lower-left corner plus the
    side [2 * radius] times the draw. *)
Definition square_point (u v : R) : R * R :=
  (- radius + 2 * radius * u, - radius + 2 * radius * v).

(** Point [i] of a call that starts reading the stream [s] at [p]. *)
Definition sampled_point (s : nat -> R) (p i : nat) : R * R :=
  square_point (s (p + 2 * i)%nat) (s (S (p + 2 * i))).


Definition norm (q : R * R) : R := sqrt (fst q * fst q + snd q * snd q).

Definition within_circle (q : R * R) : bool :=
  if Rle_dec (norm q) radius then true else false.

(** How many of the first [n] points pass [test]. *)
Definition count_where (test : R * R -> bool) (s : nat -> R) (p n : nat) : Z :=
  Z.of_nat (length (filter (fun i => test (sampled_point s p i)) (seq 0 n))).

Definition circle_count : (nat -> R) -> nat -> nat -> Z :=
  count_where within_circle.


(** A stream whose every point is (-1, 0), on the circle. *)
Definition boundary_world : World R :=
  mkWorld (fun i => if Nat.even i then 0 else 1 / 2) 0 [].

(** The call [lorenz(u, t, *args)] that the solver makes, [args] being the
    parameter triple. *)
Definition lorenz_at (u : list R) (t : R) (p : R * R * R) : outcome (list R) :=
  let '(sigma, rho, beta) := p in lorenz u t sigma rho beta.

Definition padd (p q : R * R * R) : R * R * R :=
  let '(a, b, c) := p in let '(a', b', c') := q in (a + a', b + b', c + c').

Definition pscale (k : R) (p : R * R * R) : R * R * R :=
  let '(a, b, c) := p in (k * a, k * b, k * c).

Definition vadd (a b : list R) : list R :=
  map (fun ab => fst ab + snd ab) (combine a b).

Definition vsub (a b : list R) : list R :=
  map (fun ab => fst ab - snd ab) (combine a b).

Definition vscale (k : R) (a : list R) : list R := map (Rmult k) a.

Definition lift2 (g : list R -> list R -> list R)
    (a b : outcome (list R)) : outcome (list R) :=
  match a, b with
  | Return x, Return y => Return (g x y)
  | Raise e, _ => Raise e
  | Return _, Raise e => Raise e
  end.

Definition oadd := lift2 vadd.
Definition osub := lift2 vsub.

Definition oscale (k : R) (a : outcome (list R)) : outcome (list R) :=
  match a with
  | Return x => Return (vscale k x)
  | Raise e => Raise e
  end.

(** Linearity in the parameters, as the specification words it. *)
Definition additive_in_params (u : list R) : Prop :=
  forall t p1 p2,
    lorenz_at u t (padd p1 p2) = oadd (lorenz_at u t p1) (lorenz_at u t p2).

Definition homogeneous_in_params (u : list R) : Prop :=
  forall t c p, lorenz_at u t (pscale c p) = oscale c (lorenz_at u t p).

End SpecificationWords.

(* ------------------------------------------------------------------ *)
(** ** Draws for a run on binary64 *)

(** Draws that are exact on binary64; they give the points (-1, 0),
    (0.75, 0.875), and (-0.5, -0.5) from then on. *)
Definition draws64 (i : nat) : float :=
  match i with
  | 0%nat => 0%float
  | 1%nat => 0.5%float
  | 2%nat => 0.875%float
  | 3%nat => 0.9375%float
  | _ => 0.25%float
  end.

Definition world64 : World float := mkWorld draws64 0 [].

(** The draws 0 and 0.5 + 2^-53: the point (-1, 2^-52), whose computed
    distance is rounded to 1. *)
Definition edge_draws64 (i : nat) : float :=
  match i with
  | 0%nat => 0%float
  | _ => 0x1.0000000000001p-1%float
  end.

Definition edge_world64 : World float := mkWorld edge_draws64 0 [].

(** Two draws, multiples of 2^-53, whose first coordinate is the argument
    at which [glibc_pow_two] is not the rounded product. *)
Definition flip_draws64 (i : nat) : float :=
  match i with
  | 0%nat => 0x1.c37b27ccda7b3p-1%float
  | _ => 0x1.a54c123dea52ap-1%float
  end.

Definition flip_world64 : World float := mkWorld flip_draws64 0 [].

(** A stream that shares its first four draws with [draws64]. *)
Definition draws64_then_ones (i : nat) : float :=
  if (i <? 4)%nat then draws64 i else 1%float.

(* ------------------------------------------------------------------ *)
(** ** The Julia fields on arrays passed by reference *)

Section InPlaceFields.

Context {A : Type} `{Number A}.
Local Open Scope num_scope.

(** Julia arrays are mutable and passed by reference: a store maps a
    reference to the array's content. *)
Definition Store : Type := nat -> list A.

Definition update (st : Store) (r : nat) (a : list A) : Store :=
  fun r' => if Nat.eqb r' r then a else st r'.

Definition J (X : Type) : Type := Store -> outcome X * Store.

Definition jret {X} (x : X) : J X := fun st => (Return x, st).

Definition jbind {X Y} (c : J X) (k : X -> J Y) : J Y :=
  fun st => match c st with
            | (Return x, st') => k x st'
            | (Raise e, st') => (Raise e, st')
            end.

Notation "x <- c ;; k" := (jbind c (fun x => k))
  (at level 61, c at next level, right associativity).

(** [a[i]] and [a[i] = v] on the array behind a reference. *)
Definition load (r i : nat) : J A := fun st => (getindex (st r) i, st).

Definition store (r : nat) (v : A) (i : nat) : J unit :=
  fun st => match setindex (st r) v i with
            | Return a => (Return tt, update st r a)
            | Raise e => (Raise e, st)
            end.

(** [f(du,u,p,t)] of the diffeqpy cell, on references: the six reads come
    first, the three writes last. *)
Definition f_store (du u p : nat) (t : A) : J unit :=
  x <- load u 1 ;; y <- load u 2 ;; z <- load u 3 ;;
  sigma <- load p 1 ;; rho <- load p 2 ;; beta <- load p 3 ;;
  _ <- store du (sigma * (y - x)) 1 ;;
  _ <- store du (x * (rho - z) - y) 2 ;;
  store du (x * y - beta * z) 3.

(** [lorenz!(du,u,p,t)] of the Julia cell: each line reads [p] and [u]
    again and then writes one entry of [du]. *)
Definition lorenz_inplace (du u p : nat) (t : A) : J unit :=
  p1 <- load p 1 ;; u2 <- load u 2 ;; u1 <- load u 1 ;;
  _ <- store du (p1 * (u2 - u1)) 1 ;;
  u1 <- load u 1 ;; p2 <- load p 2 ;; u3 <- load u 3 ;; u2 <- load u 2 ;;
  _ <- store du (u1 * (p2 - u3) - u2) 2 ;;
  u1 <- load u 1 ;; u2 <- load u 2 ;; p3 <- load p 3 ;; u3 <- load u 3 ;;
  store du (u1 * u2 - p3 * u3) 3.

(** [lorenz_static(u,p,t)] on static vectors of three entries, the type it
    is called with; under [@inbounds] no index is checked, so other sizes
    have no defined behaviour.  A fresh static vector is returned. *)
Definition lorenz_static (u p : A * A * A) (t : A) : A * A * A :=
  let '(u1, u2, u3) := u in
  let '(p1, p2, p3) := p in
  let dx := p1 * (u2 - u1) in
  let dy := u1 * (p2 - u3) - u2 in
  let dz := u1 * u2 - p3 * u3 in
  (dx, dy, dz).

Definition svector_entries (v : A * A * A) : list A :=
  let '(a, b, c) := v in [a; b; c].

End InPlaceFields.

(* ------------------------------------------------------------------ *)
(** ** Calls in a row *)

Section CallsInARow.

Context {A : Type} `{Number A}.

(** Two calls of [estimate_pi] one after the other, as the timing loops
    make them; the second starts where the first left the generator. *)
Definition two_estimates (estimate_pi : Z -> M A A) (n m : Z) : M A (A * A) :=
  bind (estimate_pi n) (fun e1 =>
  bind (estimate_pi m) (fun e2 => ret (e1, e2))).

End CallsInARow.

(* ------------------------------------------------------------------ *)
(** ** Julia's [Int] addition *)

Module JuliaInt.

Local Open Scope Z_scope.

(** [Int] is [Int64]: a value in [typemin, typemax]; [+] wraps around. *)
Definition typemin : Z := -9223372036854775808.
Definition typemax : Z := 9223372036854775807.
Definition modulus : Z := 18446744073709551616.

Definition is_int (z : Z) : Prop := typemin <= z <= typemax.

Definition wrap (z : Z) : Z := (z - typemin) mod modulus + typemin.

(** [add(x::Int, y::Int) = x+y]. *)
Definition add (x y : Z) : Z := wrap (x + y).

(** [⊕(x::Int,y::Int) = add(x,y)]. *)
Definition oplus (x y : Z) : Z := add x y.

End JuliaInt.

(** Stores for runs on binary64: array 0 is the state [1, 0, 0] of the
    notebook, array 1 the parameters [10, 28, 8/3], array 2 a buffer. *)
Definition store64 (r : nat) : list float :=
  match r with
  | 0%nat => [1; 0; 0]%float
  | 1%nat => [10; 28; 8 / 3]%float
  | _ => [0; 0; 0]%float
  end.

(** A state array that lost its third entry. *)
Definition short_store64 (r : nat) : list float :=
  match r with
  | 0%nat => [1; 0]%float
  | 1%nat => [10; 28; 8 / 3]%float
  | _ => [0; 0; 0]%float
  end.

(* ------------------------------------------------------------------ *)
(** ** The loop and the arrays, step by step *)

Section SamplingFacts.

Context {A : Type} `{Number A} `{Power A}.
Local Open Scope num_scope.

Lemma run_eq {X : Type} (x x' : X) (s : nat -> A) (p p' : nat) (o : list Z) :
  x = x' -> p = p' ->
  (Return x, mkWorld s p o) = (Return x', mkWorld s p' o).
Proof. congruence. Qed.

Lemma filter_seq_shift (g : nat -> bool) (k : nat) :
  filter g (seq 1 k) = map S (filter (fun i => g (S i)) (seq 0 k)).
Proof.
  rewrite <- seq_shift.
  induction (seq 0 k) as [|i l IH]; simpl; [reflexivity|].
  destruct (g (S i)); simpl; now rewrite IH.
Qed.

Lemma hits_0 (s : nat -> A) (p : nat) : hits s p 0 = 0%Z.
Proof. reflexivity. Qed.

Lemma hits_front (s : nat -> A) (p k : nat) :
  hits s p (S k)
  = ((if inside_at s p then 1 else 0) + hits s (S (S p)) k)%Z.
Proof.
  unfold hits. cbn [seq filter].
  rewrite filter_seq_shift.
  replace (p + 2 * 0)%nat with p by lia.
  assert (E : filter (fun i => inside_at s (p + 2 * S i)) (seq 0 k)
              = filter (fun i => inside_at s (S (S p) + 2 * i)) (seq 0 k)).
  { apply filter_ext. intros i. f_equal. lia. }
  rewrite E.
  destruct (inside_at s p); cbn [length]; rewrite length_map; lia.
Qed.

Lemma hits_bounds (s : nat -> A) (p k : nat) :
  (0 <= hits s p k <= Z.of_nat k)%Z.
Proof.
  unfold hits. split; [lia|].
  apply Nat2Z.inj_le.
  etransitivity; [apply filter_length_le|].
  now rewrite length_seq.
Qed.

(** The loop: [k] passes add [hits] to the counter and read [2k] draws. *)
Lemma for_range_trial (k : nat) :
  forall (n : Z) (w : World A),
    for_range k (trial (of_int 1) (of_int 2 * of_int 1)) n w
    = (Return (n + hits (rng w) (pos w) k)%Z, advance w (2 * k)).
Proof.
  induction k as [|k IH]; intros n w.
  - cbn [for_range]. unfold ret, advance. rewrite hits_0.
    destruct w as [s p o]; cbn [rng pos stdout]. apply run_eq; lia.
  - cbn [for_range]. unfold bind at 1.
    assert (T : trial (of_int 1) (of_int 2 * of_int 1) n w
                = (Return (n + (if inside_at (rng w) (pos w) then 1 else 0))%Z,
                   mkWorld (rng w) (S (S (pos w))) (stdout w))).
    { unfold trial, bind, random, ret.
      cbn [rng pos stdout].
      unfold inside_at, distance_at, coordinate.
      destruct (fle _ _); cbn; [reflexivity | now rewrite Z.add_0_r]. }
    rewrite T, IH. cbn [rng pos stdout].
    rewrite hits_front. unfold advance. cbn [rng pos stdout].
    apply run_eq; lia.
Qed.

(** The same for any way [r] of computing the distance. *)
Lemma accepts_0 (r : A -> A -> A) (s : nat -> A) (p : nat) :
  accepts r s p 0 = (r (coordinate (s p)) (coordinate (s (S p))) <=? of_int 1).
Proof. unfold accepts. now replace (p + 2 * 0)%nat with p by lia. Qed.

Lemma accepts_S (r : A -> A -> A) (s : nat -> A) (p i : nat) :
  accepts r s p (S i) = accepts r s (S (S p)) i.
Proof.
  unfold accepts.
  now replace (p + 2 * S i)%nat with (S (S p) + 2 * i)%nat by lia.
Qed.

Lemma hits_by_0 (r : A -> A -> A) (s : nat -> A) (p : nat) :
  hits_by r s p 0 = 0%Z.
Proof. reflexivity. Qed.

Lemma hits_by_front (r : A -> A -> A) (s : nat -> A) (p k : nat) :
  hits_by r s p (S k)
  = ((if accepts r s p 0 then 1 else 0) + hits_by r s (S (S p)) k)%Z.
Proof.
  unfold hits_by. cbn [seq filter].
  rewrite filter_seq_shift.
  rewrite (filter_ext _ _ (accepts_S r s p)).
  destruct (accepts r s p 0); cbn [length]; rewrite length_map; lia.
Qed.

Lemma hits_by_last (r : A -> A -> A) (s : nat -> A) (p k : nat) :
  hits_by r s p (S k)
  = (hits_by r s p k + (if accepts r s p k then 1 else 0))%Z.
Proof.
  unfold hits_by. rewrite seq_S, filter_app, length_app. cbn [Nat.add filter].
  destruct (accepts r s p k); cbn [length]; lia.
Qed.

Lemma hits_by_app (r : A -> A -> A) (s : nat -> A) (n m : nat) :
  forall p,
    hits_by r s p (n + m)
    = (hits_by r s p n + hits_by r s (p + 2 * n) m)%Z.
Proof.
  induction n as [|n IH]; intros p.
  - rewrite hits_by_0. cbn [Nat.add].
    now replace (p + 2 * 0)%nat with p by lia.
  - cbn [Nat.add]. rewrite !hits_by_front, IH.
    replace (S (S p) + 2 * n)%nat with (p + 2 * S n)%nat by lia. lia.
Qed.

Lemma hits_by_ext (r : A -> A -> A) (s s' : nat -> A) (k : nat) :
  forall p,
    (forall i, (p <= i < p + 2 * k)%nat -> s i = s' i) ->
    hits_by r s p k = hits_by r s' p k.
Proof.
  induction k as [|k IH]; intros p E; [reflexivity|].
  rewrite !hits_by_front, !accepts_0.
  rewrite (E p), (E (S p)) by lia.
  rewrite (IH (S (S p))); [reflexivity|].
  intros i L. apply E. lia.
Qed.

Lemma hits_is_hits_by (s : nat -> A) (p k : nat) :
  hits s p k = hits_by r_product s p k.
Proof. reflexivity. Qed.

(** A loop whose body reads two draws and adds 1 when the test accepts. *)
Lemma for_range_counts (body : Z -> M A Z) (r : A -> A -> A) :
  (forall (n : Z) (w : World A),
      body n w
      = (Return (n + (if accepts r (rng w) (pos w) 0 then 1 else 0))%Z,
         mkWorld (rng w) (S (S (pos w))) (stdout w))) ->
  forall (k : nat) (n : Z) (w : World A),
    for_range k body n w
    = (Return (n + hits_by r (rng w) (pos w) k)%Z, advance w (2 * k)).
Proof.
  intros T k. induction k as [|k IH]; intros n w.
  - cbn [for_range]. unfold ret, advance. rewrite hits_by_0.
    destruct w as [s p o]; cbn [rng pos stdout]. apply run_eq; lia.
  - cbn [for_range]. unfold bind at 1.
    rewrite T, IH. cbn [rng pos stdout].
    rewrite hits_by_front. unfold advance. cbn [rng pos stdout].
    apply run_eq; lia.
Qed.

(** The naive Python loop. *)
Lemma for_range_trial_pow (k : nat) (n : Z) (w : World A) :
  for_range k (trial_pow (of_int 1) (of_int 2 * of_int 1)) n w
  = (Return (n + hits_by r_pow (rng w) (pos w) k)%Z, advance w (2 * k)).
Proof.
  apply for_range_counts. clear. intros n w.
  rewrite accepts_0.
  unfold trial_pow, bind, random, ret, r_pow, coordinate.
  cbn [rng pos stdout].
  destruct (fle _ _); cbn; [reflexivity | now rewrite Z.add_0_r].
Qed.

Lemma sample_rows_front (s : nat -> A) (p k : nat) :
  sample_rows s p (S k) = [s p; s (S p)] :: sample_rows s (S (S p)) k.
Proof.
  unfold sample_rows. cbn [seq map].
  replace (p + 2 * 0)%nat with p by lia. f_equal.
  rewrite <- seq_shift, map_map. apply map_ext.
  intros i. now replace (p + 2 * S i)%nat with (S (S p) + 2 * i)%nat by lia.
Qed.

Lemma random_row_2 (w : World A) :
  random_row 2 w
  = (Return [rng w (pos w); rng w (S (pos w))],
     mkWorld (rng w) (S (S (pos w))) (stdout w)).
Proof. reflexivity. Qed.

Lemma random_rows_2 (k : nat) :
  forall w : World A,
    random_rows k 2 w
    = (Return (sample_rows (rng w) (pos w) k), advance w (2 * k)).
Proof.
  induction k as [|k IH]; intros w.
  - cbn [random_rows]. unfold ret, advance.
    destruct w as [s p o]; cbn [rng pos stdout]. now apply run_eq; [|lia].
  - cbn [random_rows]. unfold bind at 1. rewrite random_row_2.
    unfold bind at 1. rewrite IH. cbn [rng pos stdout]. unfold ret.
    rewrite sample_rows_front. unfold advance. cbn [rng pos stdout].
    now apply run_eq; [|lia].
Qed.

Lemma mask_select_map (g : A -> bool) (r : list A) :
  mask_select r (map g r) = filter g r.
Proof.
  induction r as [|x r IH]; [reflexivity|].
  cbn. destruct (g x); now rewrite IH.
Qed.

Lemma length_filter_map {X Y} (g : Y -> bool) (h : X -> Y) (l : list X) :
  length (filter g (map h l)) = length (filter (fun x => g (h x)) l).
Proof.
  induction l as [|x l IH]; [reflexivity|].
  cbn. destruct (g (h x)); cbn; now rewrite IH.
Qed.

End SamplingFacts.

(* ------------------------------------------------------------------ *)
(** ** What each variant returns, for any arithmetic *)

Section Runs.

Context {A : Type} `{Number A} `{Power A}.
Local Open Scope num_scope.

Lemma estimate_pi_naive_run (nMC : Z) (w : World A) :
  estimate_pi_naive nMC w
  = (if (nMC =? 0)%Z then Raise ZeroDivisionError
     else Return (of_int 4
                  * of_int (hits_by r_pow (rng w) (pos w) (Z.to_nat nMC))
                  / of_int nMC),
     advance w (2 * Z.to_nat nMC)).
Proof.
  unfold estimate_pi_naive, bind. rewrite for_range_trial_pow.
  unfold truediv, raise, ret. rewrite Z.add_0_l.
  now destruct (nMC =? 0)%Z.
Qed.

Lemma estimate_pi_numba_run (nMC : Z) (w : World A) :
  estimate_pi_numba nMC w
  = (if (nMC =? 0)%Z then Raise ZeroDivisionError
     else Return (of_int 4 * of_int (hits (rng w) (pos w) (Z.to_nat nMC))
                  / of_int nMC),
     advance w (2 * Z.to_nat nMC)).
Proof.
  unfold estimate_pi_numba, bind. rewrite for_range_trial.
  unfold truediv, raise, ret. rewrite Z.add_0_l.
  now destruct (nMC =? 0)%Z.
Qed.

Lemma estimate_pi_julia_run (nMC : Z) (w : World A) :
  estimate_pi_julia nMC w
  = (Return (of_int (hits (rng w) (pos w) (Z.to_nat nMC)) / of_int nMC
             * of_int 4),
     advance w (2 * Z.to_nat nMC)).
Proof.
  unfold estimate_pi_julia, bind. rewrite for_range_trial.
  unfold ret. now rewrite Z.add_0_l.
Qed.

Lemma estimate_pi_vectorized_run (nMC : Z) (w : World A) :
  estimate_pi_vectorized nMC w
  = if (nMC <? 0)%Z then (Raise ValueError, w)
    else
      let n_circle := vector_count (rng w) (pos w) (Z.to_nat nMC) in
      (if (nMC =? 0)%Z then Raise ZeroDivisionError
       else Return (of_int 4 * of_int n_circle / of_int nMC),
       mkWorld (rng w) (pos w + 2 * Z.to_nat nMC) (stdout w ++ [n_circle])).
Proof.
  unfold estimate_pi_vectorized, bind, np_random_random.
  destruct (nMC <? 0)%Z; cbn [orb Z.ltb Z.compare]; [reflexivity|].
  change (Z.to_nat 2) with 2%nat. rewrite random_rows_2.
  unfold print, truediv, raise, ret, advance. cbn [rng pos stdout].
  fold (vector_count (rng w) (pos w) (Z.to_nat nMC)).
  now destruct (nMC =? 0)%Z.
Qed.

(** The arrays of the vectorized variant count the points its own distance
    accepts. *)
Lemma vector_count_hits_by (s : nat -> A) (p k : nat) :
  vector_count s p k = hits_by r_row_sum s p k.
Proof.
  unfold vector_count, hits_by. rewrite mask_select_map.
  unfold sum_axis1, broadcast, sample_rows. rewrite !map_map.
  rewrite length_filter_map. reflexivity.
Qed.

End Runs.

(* ------------------------------------------------------------------ *)
(** ** The arithmetic of the kernels at the reals *)

Section RealEstimator.

Local Open Scope R_scope.

Lemma coordinate_R (u : R) : coordinate u = 2 * u - 1.
Proof. unfold coordinate. cbn. lra. Qed.

Lemma square_R (x : R) : square x = x * x.
Proof. reflexivity. Qed.

Lemma distance_at_R (s : nat -> R) (q : nat) :
  distance_at s q
  = sqrt ((2 * s q - 1) * (2 * s q - 1)
          + (2 * s (S q) - 1) * (2 * s (S q) - 1)).
Proof.
  unfold distance_at. rewrite !square_R, !coordinate_R. reflexivity.
Qed.

Lemma inside_at_R (s : nat -> R) (q : nat) :
  inside_at s q = Rleb (distance_at s q) 1.
Proof. reflexivity. Qed.

(** The arrays of the vectorized variant count what the loop counts. *)
Lemma vector_count_R (s : nat -> R) (p k : nat) :
  vector_count s p k = hits s p k.
Proof.
  unfold vector_count, hits. rewrite mask_select_map.
  unfold sum_axis1, broadcast, sample_rows. rewrite !map_map.
  rewrite length_filter_map. do 2 f_equal.
  apply filter_ext. intros i.
  cbn [map fold_left]. unfold inside_at, distance_at, coordinate.
  cbn [fadd fle fsqrt of_int Number_R]. now rewrite Rplus_0_l.
Qed.

(** Over the reals the three ways of computing the distance coincide. *)
Lemma hits_by_pow_R (s : nat -> R) (p k : nat) :
  hits_by r_pow s p k = hits s p k.
Proof. reflexivity. Qed.


End RealEstimator.

(* ------------------------------------------------------------------ *)
(** ** The code's count is the specification's count *)

Section EstimatorSpec.

Local Open Scope R_scope.

Lemma within_circle_inside_at (s : nat -> R) (p i : nat) :
  within_circle (sampled_point s p i) = inside_at s (p + 2 * i).
Proof.
  rewrite inside_at_R, distance_at_R.
  unfold within_circle, norm, sampled_point, square_point, radius, Rleb.
  cbn [fst snd].
  match goal with
  | |- (if Rle_dec (sqrt ?a) _ then _ else _)
       = (if Rle_dec (sqrt ?b) _ then _ else _) =>
      replace a with b by ring
  end.
  reflexivity.
Qed.

Lemma circle_count_hits (s : nat -> R) (p n : nat) :
  circle_count s p n = hits s p n.
Proof.
  unfold circle_count, count_where, hits. do 2 f_equal.
  apply filter_ext. intros i. apply within_circle_inside_at.
Qed.

Lemma circle_count_bounds (s : nat -> R) (p n : nat) :
  (0 <= circle_count s p n <= Z.of_nat n)%Z.
Proof. rewrite circle_count_hits. apply hits_bounds. Qed.


(** Both Python variants, for a positive trial count. *)
Lemma estimate_pi_naive_value (nMC : Z) (w : World R) :
  (0 < nMC)%Z ->
  estimate_pi_naive nMC w
  = (Return (4 * IZR (circle_count (rng w) (pos w) (Z.to_nat nMC)) / IZR nMC),
     advance w (2 * Z.to_nat nMC)).
Proof.
  intros P. rewrite estimate_pi_naive_run, circle_count_hits.
  destruct (Z.eqb_spec nMC 0) as [E|_]; [lia | reflexivity].
Qed.

Lemma estimate_pi_vectorized_value (nMC : Z) (w : World R) :
  (0 < nMC)%Z ->
  estimate_pi_vectorized nMC w
  = (Return (4 * IZR (circle_count (rng w) (pos w) (Z.to_nat nMC)) / IZR nMC),
     mkWorld (rng w) (pos w + 2 * Z.to_nat nMC)
             (stdout w ++ [circle_count (rng w) (pos w) (Z.to_nat nMC)])).
Proof.
  intros P. rewrite estimate_pi_vectorized_run, vector_count_R, circle_count_hits.
  destruct (Z.ltb_spec nMC 0) as [L|_]; [lia|].
  destruct (Z.eqb_spec nMC 0) as [E|_]; [lia | reflexivity].
Qed.

Lemma scaled_fraction_bounds (c nMC : Z) :
  (0 < nMC)%Z -> (0 <= c <= nMC)%Z -> 0 <= 4 * IZR c / IZR nMC <= 4.
Proof.
  intros P [L U].
  assert (0 < IZR nMC) by now apply IZR_lt.
  assert (0 <= IZR c) by now apply IZR_le.
  assert (IZR c <= IZR nMC) by now apply IZR_le.
  split.
  - apply Rmult_le_pos; [lra|]. left. now apply Rinv_0_lt_compat.
  - apply (Rmult_le_reg_r (IZR nMC)); [assumption|].
    unfold Rdiv. rewrite Rmult_assoc, Rinv_l; lra.
Qed.

End EstimatorSpec.

(* ------------------------------------------------------------------ *)
(** ** Properties of the estimator *)

Section EstimatorAnyArithmetic.

Context {A : Type} `{Number A} `{Power A}.

Lemma advance_0 (w : World A) : advance w 0 = w.
Proof. destruct w as [s p o]. unfold advance. cbn. f_equal. lia. Qed.

(** C3: with a trial count of 0 neither Python variant returns a number:
    the final division by [nMC] raises ZeroDivisionError.  No draw is
    read; the vectorized variant has printed its count, 0, by then. *)
Theorem estimate_pi_zero_trials_raises (w : World A) :
  estimate_pi_naive 0 w = (Raise ZeroDivisionError, w) /\
  estimate_pi_vectorized 0 w
  = (Raise ZeroDivisionError, mkWorld (rng w) (pos w) (stdout w ++ [0%Z])).
Proof.
  split.
  - rewrite estimate_pi_naive_run. cbn. now rewrite advance_0.
  - rewrite estimate_pi_vectorized_run. cbn. do 2 f_equal. lia.
Qed.

(** C9: for any trial count (zero included) the vectorized variant appends
    exactly one line to standard output, its hit count [n_circle]; the
    naive loop and its numba compilation leave standard output as it was. *)
Theorem vectorized_prints_n_circle (nMC : Z) (w : World A) :
  (0 <= nMC)%Z ->
  stdout (snd (estimate_pi_vectorized nMC w))
  = stdout w ++ [vector_count (rng w) (pos w) (Z.to_nat nMC)] /\
  stdout (snd (estimate_pi_naive nMC w)) = stdout w /\
  stdout (snd (estimate_pi_numba nMC w)) = stdout w.
Proof.
  intros P.
  rewrite estimate_pi_vectorized_run, estimate_pi_naive_run,
    estimate_pi_numba_run.
  destruct (Z.ltb_spec nMC 0) as [L|_]; [lia|].
  cbn. auto.
Qed.


End EstimatorAnyArithmetic.

Lemma vectorized_prints_n_circle_witness :
  stdout (snd (estimate_pi_vectorized 4 world64)) = [3%Z] /\
  stdout (snd (estimate_pi_naive 4 world64)) = [] /\
  stdout (snd (estimate_pi_numba 4 world64)) = [].
Proof.
  destruct (@vectorized_prints_n_circle float _ _ 4 world64 ltac:(lia))
    as (V & N & J).
  rewrite V, N, J. vm_compute. repeat split.
Defined.

Section EstimatorOverReals.

Local Open Scope R_scope.

(** C2: whatever the draws, a value returned by either Python variant lies
    in [0, 4]; and for a positive trial count both do return a value. *)
Theorem estimate_pi_in_0_4 (nMC : Z) (w : World R) :
  (forall v,
      fst (estimate_pi_naive nMC w) = Return v \/
      fst (estimate_pi_vectorized nMC w) = Return v ->
      0 <= v <= 4) /\
  ((0 < nMC)%Z ->
   exists v, fst (estimate_pi_naive nMC w) = Return v /\
             fst (estimate_pi_vectorized nMC w) = Return v /\
             0 <= v <= 4).
Proof.
  pose proof (circle_count_bounds (rng w) (pos w) (Z.to_nat nMC)) as B.
  split.
  - intros v.
    rewrite estimate_pi_naive_run, estimate_pi_vectorized_run.
    rewrite hits_by_pow_R, vector_count_R, <- circle_count_hits.
    destruct (Z.ltb_spec nMC 0) as [L|G].
    + (* a negative count: the loop does not run, numpy refuses the shape *)
      destruct (Z.eqb_spec nMC 0) as [E|_]; [lia|]. cbn [fst].
      intros [E|E]; [|discriminate]. injection E as <-.
      replace (Z.to_nat nMC) with 0%nat by lia.
      unfold circle_count, count_where. cbn. unfold Rdiv. rewrite Rmult_0_r.
      rewrite Rmult_0_l. lra.
    + destruct (Z.eqb_spec nMC 0) as [E|N]; cbn [fst].
      * intros [E'|E']; discriminate.
      * assert (4 * IZR (circle_count (rng w) (pos w) (Z.to_nat nMC))
                / IZR nMC = v -> 0 <= v <= 4) as K.
        { intros <-. apply scaled_fraction_bounds; lia. }
        intros [E'|E']; injection E' as E'; exact (K E').
  - intros P. eexists.
    rewrite estimate_pi_naive_value, estimate_pi_vectorized_value by assumption.
    cbn [fst]. repeat split; apply scaled_fraction_bounds; lia.
Qed.

Lemma estimate_pi_in_0_4_witness :
  exists v, fst (estimate_pi_naive 1 boundary_world) = Return v /\
            fst (estimate_pi_vectorized 1 boundary_world) = Return v /\
            0 <= v <= 4.
Proof.
  exact (proj2 (@estimate_pi_in_0_4 1%Z boundary_world) ltac:(lia)).
Defined.


End EstimatorOverReals.

(** What [glibc_pow_two] returns at its exceptional argument is the float
    next to the rounded product, and the exact square lies strictly
    between the two: the library's result is off by less than one unit in
    the last place, which is all that C's [pow] promises. *)
Lemma glibc_pow_two_is_faithful :
  Prim2SF 0x1.86f64f99b4f66p-1%float
  = S754_finite false 6877878916173670 (-53) /\
  Prim2SF (PrimFloat.mul 0x1.86f64f99b4f66p-1 0x1.86f64f99b4f66p-1)
  = S754_finite false 5251934263655477 (-53) /\
  Prim2SF (glibc_pow_two 0x1.86f64f99b4f66p-1)
  = S754_finite false 5251934263655478 (-53) /\
  (5251934263655477 * 2 ^ 53 < 6877878916173670 * 6877878916173670
   < 5251934263655478 * 2 ^ 53)%Z.
Proof. vm_compute. repeat split; reflexivity. Qed.



(** C7 fails as stated: on binary64, for the two draws of [flip_draws64]
    and one trial, the naive loop returns 0 and the vectorized variant 4.
    The first coordinate is 0x1.86f64f99b4f66p-1; the power the loop takes
    of it and the product the array takes differ in the last place, and
    the two computed distances fall on either side of the radius. *)
Lemma naive_and_vectorized_differ_on_binary64 :
  coordinate (flip_draws64 0) = 0x1.86f64f99b4f66p-1%float /\
  pow_two (coordinate (flip_draws64 0)) = 0x1.2a89b3c2b3c36p-1%float /\
  square (coordinate (flip_draws64 0)) = 0x1.2a89b3c2b3c35p-1%float /\
  r_pow (coordinate (flip_draws64 0)) (coordinate (flip_draws64 1))
  = 0x1.0000000000001p+0%float /\
  r_row_sum (coordinate (flip_draws64 0)) (coordinate (flip_draws64 1))
  = 1%float /\
  fst (estimate_pi_naive 1 flip_world64) = Return 0%float /\
  fst (estimate_pi_vectorized 1 flip_world64) = Return 4%float.
Proof. vm_compute. repeat split; reflexivity. Qed.

(** C7, amended: for a positive trial count and the same draws, in every
    arithmetic, the naive loop and the vectorized variant leave the
    generator at the same position, and they return the same value,
    4 * count / nMC, whenever their tests [r <= radius] give the same
    answer at every sampled point.  Over the reals they always do, and the
    count is the number of points with sqrt(x^2 + y^2) <= 1. *)
Theorem naive_and_vectorized_agree :
  (forall (A : Type) (N : Number A) (P : Power A) (nMC : Z) (w : World A),
      (0 < nMC)%Z ->
      let n := Z.to_nat nMC in
      rng (snd (estimate_pi_naive nMC w))
      = rng (snd (estimate_pi_vectorized nMC w)) /\
      pos (snd (estimate_pi_naive nMC w))
      = pos (snd (estimate_pi_vectorized nMC w)) /\
      ((forall i, (i < n)%nat ->
                  accepts r_pow (rng w) (pos w) i
                  = accepts r_row_sum (rng w) (pos w) i) ->
       fst (estimate_pi_naive nMC w) = fst (estimate_pi_vectorized nMC w) /\
       fst (estimate_pi_naive nMC w)
       = Return (of_int 4 * of_int (hits_by r_row_sum (rng w) (pos w) n)
                 / of_int nMC)%num)) /\
  (forall (nMC : Z) (w : World R),
      (0 < nMC)%Z ->
      let v := (4 * IZR (circle_count (rng w) (pos w) (Z.to_nat nMC))
                / IZR nMC)%R in
      fst (estimate_pi_naive nMC w) = Return v /\
      fst (estimate_pi_vectorized nMC w) = Return v).
Proof.
  split.
  - intros A N P nMC w L n. subst n.
    rewrite estimate_pi_naive_run, estimate_pi_vectorized_run.
    rewrite vector_count_hits_by.
    destruct (Z.ltb_spec nMC 0) as [K|_]; [lia|].
    destruct (Z.eqb_spec nMC 0) as [K|_]; [lia|].
    cbn [fst snd rng pos advance]. split; [reflexivity|].
    split; [reflexivity|].
    intros E.
    assert (C : hits_by r_pow (rng w) (pos w) (Z.to_nat nMC)
                = hits_by r_row_sum (rng w) (pos w) (Z.to_nat nMC)).
    { unfold hits_by. do 2 f_equal. apply filter_ext_in.
      intros i I. apply in_seq in I. apply E. lia. }
    rewrite C. split; reflexivity.
  - intros nMC w L v. subst v.
    rewrite estimate_pi_naive_value, estimate_pi_vectorized_value
      by assumption.
    split; reflexivity.
Qed.

Lemma naive_and_vectorized_agree_witness :
  fst (estimate_pi_naive 4 world64) = fst (estimate_pi_vectorized 4 world64) /\
  fst (estimate_pi_naive 4 world64) = Return 3%float /\
  pos (snd (estimate_pi_naive 4 world64)) = 8%nat /\
  pos (snd (estimate_pi_vectorized 4 world64)) = 8%nat.
Proof.
  destruct (proj1 naive_and_vectorized_agree
              float _ _ 4%Z world64 ltac:(lia)) as (_ & Q & K).
  assert (E : forall i, (i < Z.to_nat 4)%nat ->
                        accepts r_pow (rng world64) (pos world64) i
                        = accepts r_row_sum (rng world64) (pos world64) i).
  { intros i L. change (Z.to_nat 4) with 4%nat in L.
    destruct i as [|[|[|[|i]]]]; [reflexivity ..|lia]. }
  destruct (K E) as (S1 & S2).
  split; [exact S1|]. split; [rewrite S2; vm_compute; reflexivity|].
  split; [reflexivity|]. rewrite <- Q. reflexivity.
Defined.

(** C10: in every arithmetic in which [radius <= radius] holds (binary64,
    the reals), and for every way of computing the distance, a sampled
    point whose computed distance [r] equals the radius passes the test
    [r <= radius] and adds 1 to the count: the count of the call is the
    count before that point, plus 1, plus the count after it.  The
    estimate of each variant is made of the count of its own test. *)
Theorem boundary_points_are_counted
    (A : Type) (N : Number A) (P : Power A) (nMC : Z) (w : World A) :
  (0 < nMC)%Z ->
  (of_int 1 <=? of_int 1)%num = true ->
  let n := Z.to_nat nMC in
  (forall (r : A -> A -> A) (i : nat),
      (i < n)%nat ->
      r (coordinate (rng w (pos w + 2 * i)%nat))
        (coordinate (rng w (S (pos w + 2 * i))))
      = of_int 1 ->
      accepts r (rng w) (pos w) i = true /\
      hits_by r (rng w) (pos w) n
      = (hits_by r (rng w) (pos w) i + 1
         + hits_by r (rng w) (pos w + 2 * S i) (n - S i))%Z) /\
  fst (estimate_pi_naive nMC w)
  = Return (of_int 4 * of_int (hits_by r_pow (rng w) (pos w) n)
            / of_int nMC)%num /\
  fst (estimate_pi_vectorized nMC w)
  = Return (of_int 4 * of_int (hits_by r_row_sum (rng w) (pos w) n)
            / of_int nMC)%num /\
  fst (estimate_pi_numba nMC w)
  = Return (of_int 4 * of_int (hits_by r_product (rng w) (pos w) n)
            / of_int nMC)%num /\
  fst (estimate_pi_julia nMC w)
  = Return (of_int (hits_by r_product (rng w) (pos w) n) / of_int nMC
            * of_int 4)%num.
Proof.
  intros L Refl n. split.
  - intros r i I E.
    assert (T : accepts r (rng w) (pos w) i = true).
    { unfold accepts. rewrite E. exact Refl. }
    split; [exact T|].
    replace n with (S i + (n - S i))%nat at 1 by lia.
    rewrite hits_by_app, hits_by_last, T. reflexivity.
  - subst n.
    rewrite estimate_pi_naive_run, estimate_pi_vectorized_run,
      estimate_pi_numba_run, estimate_pi_julia_run.
    rewrite vector_count_hits_by, !hits_is_hits_by.
    destruct (Z.ltb_spec nMC 0) as [K|_]; [lia|].
    destruct (Z.eqb_spec nMC 0) as [K|_]; [lia|].
    repeat split.
Qed.

Lemma boundary_points_are_counted_witness :
  r_pow (coordinate (edge_draws64 0)) (coordinate (edge_draws64 1)) = 1%float /\
  fst (estimate_pi_naive 1 edge_world64) = Return 4%float /\
  fst (estimate_pi_vectorized 1 edge_world64) = Return 4%float /\
  fst (estimate_pi_numba 1 edge_world64) = Return 4%float /\
  fst (estimate_pi_julia 1 edge_world64) = Return 4%float.
Proof.
  destruct (@boundary_points_are_counted float Number_float Power_float
              1%Z edge_world64
              ltac:(lia) ltac:(vm_compute; reflexivity))
    as (T & E1 & E2 & E3 & E4).
  destruct (T r_pow 0%nat ltac:(simpl; lia) ltac:(vm_compute; reflexivity))
    as (_ & C).
  rewrite E1, E2, E3, E4, C. vm_compute. repeat split; reflexivity.
Defined.

(* ------------------------------------------------------------------ *)
(** ** The Lorenz field *)

Section LorenzAnyArithmetic.

Context {A : Type} `{Number A}.
Local Open Scope num_scope.

Lemma f_writes_lorenz (a b c x y z t sigma rho beta : A) :
  f [a; b; c] [x; y; z] [sigma; rho; beta] t
  = lorenz [x; y; z] t sigma rho beta.
Proof. reflexivity. Qed.

(** C4: on a state [x, y, z] and parameters sigma, rho, beta the field
    returns exactly [sigma (y - x), x (rho - z) - y, x y - beta z]; the
    time argument is not read; the Julia field writes the same three
    numbers into [du].  [lorenz] takes and returns no world: it reads no
    draw and prints nothing. *)
Theorem lorenz_returns_derivative (x y z t sigma rho beta : A) :
  lorenz [x; y; z] t sigma rho beta
  = Return [sigma * (y - x); x * (rho - z) - y; x * y - beta * z] /\
  (forall t', lorenz [x; y; z] t' sigma rho beta
              = lorenz [x; y; z] t sigma rho beta) /\
  (forall a b c, f [a; b; c] [x; y; z] [sigma; rho; beta] t
                 = lorenz [x; y; z] t sigma rho beta).
Proof.
  split; [reflexivity|]. split; [reflexivity|].
  intros a b c. apply f_writes_lorenz.
Qed.

(** Outside three components the unpacking fails. *)
Lemma lorenz_unpack_error (u : list A) (t sigma rho beta : A) :
  length u <> 3%nat -> lorenz u t sigma rho beta = Raise ValueError.
Proof.
  destruct u as [|x [|y [|z [|v u]]]]; cbn; intros L;
    try reflexivity; congruence.
Qed.

End LorenzAnyArithmetic.

Section LorenzOverReals.

Local Open Scope R_scope.

(** Equality of two returned vectors, component by component. *)
Ltac vector_eq :=
  cbn; apply f_equal;
  repeat (apply (f_equal2 (@cons R)); [try ring|]);
  try reflexivity.

(** C5: at the state (0,0,0) the field returns (0,0,0), whatever the
    parameters and the time; so does the Julia field. *)
Theorem lorenz_origin_is_fixed (t sigma rho beta : R) :
  lorenz [0; 0; 0] t sigma rho beta = Return [0; 0; 0] /\
  (forall a b c, f [a; b; c] [0; 0; 0] [sigma; rho; beta] t = Return [0; 0; 0]).
Proof.
  assert (E : lorenz [0; 0; 0] t sigma rho beta = Return [0; 0; 0]).
  { vector_eq. }
  split; [exact E|].
  intros a b c. rewrite f_writes_lorenz. exact E.
Qed.

(** C6, as stated, fails at the state (1,1,1): with parameters (1,1,1)
    twice, the field of the sum is (0,0,-1) and the sum of the fields is
    (0,-2,0); the same two vectors show that scaling by 2 fails. *)
Lemma lorenz_not_linear_at_ones :
  lorenz_at [1; 1; 1] 0 (padd (1, 1, 1) (1, 1, 1)) = Return [0; 0; -1] /\
  oadd (lorenz_at [1; 1; 1] 0 (1, 1, 1)) (lorenz_at [1; 1; 1] 0 (1, 1, 1))
  = Return [0; -2; 0] /\
  lorenz_at [1; 1; 1] 0 (pscale 2 (1, 1, 1)) = Return [0; 0; -1] /\
  oscale 2 (lorenz_at [1; 1; 1] 0 (1, 1, 1)) = Return [0; -2; 0] /\
  ~ additive_in_params [1; 1; 1] /\
  ~ homogeneous_in_params [1; 1; 1].
Proof.
  assert (S : lorenz_at [1; 1; 1] 0 (padd (1, 1, 1) (1, 1, 1))
              = Return [0; 0; -1]).
  { vector_eq. }
  assert (D : oadd (lorenz_at [1; 1; 1] 0 (1, 1, 1))
                   (lorenz_at [1; 1; 1] 0 (1, 1, 1)) = Return [0; -2; 0]).
  { vector_eq. }
  assert (S' : lorenz_at [1; 1; 1] 0 (pscale 2 (1, 1, 1))
               = Return [0; 0; -1]).
  { vector_eq. }
  assert (D' : oscale 2 (lorenz_at [1; 1; 1] 0 (1, 1, 1))
               = Return [0; -2; 0]).
  { vector_eq. }
  repeat split; try assumption.
  - intros Add. specialize (Add 0 (1, 1, 1) (1, 1, 1)).
    rewrite S, D in Add. injection Add as E _. lra.
  - intros Hom. specialize (Hom 0 2 (1, 1, 1)).
    rewrite S', D' in Hom. injection Hom as E _. lra.
Qed.

(** C6, amended: for every state the field is affine in the parameters.
    With [offset] the field at parameters (0,0,0), which is
    (0, -(x z) - y, x y), the field of a sum is the sum of the fields minus
    [offset], and the field of [c p] is [c] times the field of [p] plus
    [1 - c] times [offset]. *)
Theorem lorenz_affine_in_params (u : list R) (t : R) :
  let offset := lorenz_at u t (0, 0, 0) in
  (forall x y z, u = [x; y; z] -> offset = Return [0; - (x * z) - y; x * y]) /\
  (forall p1 p2,
      lorenz_at u t (padd p1 p2)
      = osub (oadd (lorenz_at u t p1) (lorenz_at u t p2)) offset) /\
  (forall c p,
      lorenz_at u t (pscale c p)
      = oadd (oscale c (lorenz_at u t p)) (oscale (1 - c) offset)).
Proof.
  intros offset. subst offset. split; [|split].
  - intros x y z ->. vector_eq.
  - intros [[s1 r1] b1] [[s2 r2] b2].
    destruct u as [|x [|y [|z [|v u']]]]; try reflexivity.
    vector_eq.
  - intros c [[s r] b].
    destruct u as [|x [|y [|z [|v u']]]]; try reflexivity.
    vector_eq.
Qed.

(** The field is linear in the parameters exactly at the states where the
    offset vanishes. *)
Lemma lorenz_linear_iff (x y z : R) :
  additive_in_params [x; y; z] /\ homogeneous_in_params [x; y; z]
  <-> x * z + y = 0 /\ x * y = 0.
Proof.
  split.
  - intros [Add _]. specialize (Add 0 (0, 0, 0) (0, 0, 0)).
    cbn in Add. injection Add as _ E2 E3. split; lra.
  - intros [E2 E3]. split.
    + intros t [[s1 r1] b1] [[s2 r2] b2]. vector_eq.
      * replace y with (- (x * z)) by lra. ring.
      * transitivity (x * y + x * y - (b1 + b2) * z); [rewrite E3|]; ring.
    + intros t c [[s r] b]. vector_eq.
      * replace y with (- (x * z)) by lra. ring.
      * transitivity (c * (x * y) - c * b * z); [rewrite E3|]; ring.
Qed.

End LorenzOverReals.

(* ------------------------------------------------------------------ *)
(** ** The kernels run on binary64 *)

Section Binary64.

(** Four trials on [draws64]: three points pass the test. *)
Example naive_on_binary64 :
  fst (estimate_pi_naive 4 world64) = Return 3%float /\
  pos (snd (estimate_pi_naive 4 world64)) = 8%nat.
Proof. vm_compute. split; reflexivity. Qed.

Example vectorized_on_binary64 :
  fst (estimate_pi_vectorized 4 world64) = Return 3%float /\
  pos (snd (estimate_pi_vectorized 4 world64)) = 8%nat /\
  stdout (snd (estimate_pi_vectorized 4 world64)) = [3%Z].
Proof. vm_compute. repeat split; reflexivity. Qed.

(** The first point of [draws64] is (-1, 0), at distance exactly 1. *)
Example boundary_on_binary64 :
  distance_at draws64 0 = 1%float /\
  fst (estimate_pi_naive 1 world64) = Return 4%float /\
  fst (estimate_pi_vectorized 1 world64) = Return 4%float /\
  fst (estimate_pi_julia 1 world64) = Return 4%float.
Proof. vm_compute. repeat split; reflexivity. Qed.

(** No trial: Python raises, Julia's IEEE division returns NaN. *)
Example zero_trials_on_binary64 :
  fst (estimate_pi_naive 0 world64) = Raise ZeroDivisionError /\
  fst (estimate_pi_vectorized 0 world64) = Raise ZeroDivisionError /\
  fst (estimate_pi_julia 0 world64) = Return nan.
Proof. vm_compute. repeat split; reflexivity. Qed.

(** The notebook's call: u0 = [1, 0, 0], parameters (10, 28, 8/3). *)
Example lorenz_on_binary64 :
  lorenz [1; 0; 0]%float 0%float 10%float 28%float (8 / 3)%float
  = Return [-10; 28; 0]%float /\
  f [0; 0; 0]%float [1; 0; 0]%float [10; 28; 8 / 3]%float 0%float
  = Return [-10; 28; 0]%float /\
  lorenz [0; 0; 0]%float 0%float 10%float 28%float (8 / 3)%float
  = Return [0; 0; 0]%float.
Proof. vm_compute. repeat split; reflexivity. Qed.

(** The field at (1,1,1) with parameters (2,2,2) and (1,1,1), on binary64. *)
Example lorenz_sum_on_binary64 :
  lorenz [1; 1; 1]%float 0%float (1 + 1)%float (1 + 1)%float (1 + 1)%float
  = Return [0; 0; -1]%float /\
  lorenz [1; 1; 1]%float 0%float 1%float 1%float 1%float
  = Return [0; -1; 0]%float.
Proof. vm_compute. split; reflexivity. Qed.

End Binary64.

(* ------------------------------------------------------------------ *)
(** ** Further properties of the estimator *)

Section EstimatorWindows.

Context {A : Type} `{Number A} `{Power A}.

Lemma sample_rows_ext (s s' : nat -> A) (p k : nat) :
  (forall i, (p <= i < p + 2 * k)%nat -> s i = s' i) ->
  sample_rows s p k = sample_rows s' p k.
Proof.
  intros E. unfold sample_rows. apply map_ext_in.
  intros i I. apply in_seq in I.
  rewrite (E (p + 2 * i)%nat), (E (S (p + 2 * i))) by lia. reflexivity.
Qed.

(** X2: a call reads the generator's stream only between its start
    position and 2 * nMC draws further.  Two worlds that agree there give
    the same outcome in the naive and in the vectorized variant, and the
    vectorized variant prints the same count. *)
Theorem estimate_pi_reads_only_its_window (nMC : Z) (w w' : World A) :
  pos w = pos w' ->
  (forall i, (pos w <= i < pos w + 2 * Z.to_nat nMC)%nat ->
             rng w i = rng w' i) ->
  fst (estimate_pi_naive nMC w) = fst (estimate_pi_naive nMC w') /\
  fst (estimate_pi_vectorized nMC w) = fst (estimate_pi_vectorized nMC w') /\
  vector_count (rng w) (pos w) (Z.to_nat nMC)
  = vector_count (rng w') (pos w') (Z.to_nat nMC) /\
  pos (snd (estimate_pi_naive nMC w)) = (pos w + 2 * Z.to_nat nMC)%nat /\
  rng (snd (estimate_pi_naive nMC w)) = rng w.
Proof.
  intros P E.
  assert (V : vector_count (rng w) (pos w) (Z.to_nat nMC)
              = vector_count (rng w') (pos w') (Z.to_nat nMC)).
  { unfold vector_count. rewrite <- P.
    now rewrite (@sample_rows_ext (rng w) (rng w') (pos w) (Z.to_nat nMC) E). }
  rewrite !estimate_pi_naive_run, !estimate_pi_vectorized_run.
  rewrite <- V, <- P,
    <- (@hits_by_ext A _ r_pow (rng w) (rng w') (Z.to_nat nMC) (pos w) E).
  repeat split.
  destruct (nMC <? 0)%Z; reflexivity.
Qed.

End EstimatorWindows.

Lemma estimate_pi_reads_only_its_window_witness :
  fst (estimate_pi_naive 2 world64)
  = fst (estimate_pi_naive 2 (mkWorld draws64_then_ones 0 [7%Z])) /\
  fst (estimate_pi_vectorized 2 world64)
  = fst (estimate_pi_vectorized 2 (mkWorld draws64_then_ones 0 [7%Z])).
Proof.
  assert (E : forall i, (pos world64 <= i < pos world64 + 2 * Z.to_nat 2)%nat ->
                        rng world64 i
                        = rng (mkWorld draws64_then_ones 0 [7%Z]) i).
  { intros i L. cbn in L. cbn [rng world64]. unfold draws64_then_ones.
    destruct (Nat.ltb_spec i 4); [reflexivity | lia]. }
  destruct (@estimate_pi_reads_only_its_window float _ _ 2%Z world64
              (mkWorld draws64_then_ones 0 [7%Z]) eq_refl E) as (N & V & _).
  split; assumption.
Defined.

Section Pooling.

Context {A : Type} `{Number A} `{Power A}.
Local Open Scope num_scope.

(** X1: calls pool, in every arithmetic.  Calling the naive estimator
    with n and then with m trials leaves the world where a single call
    with n + m trials leaves it; the two calls return 4 c1 / n and
    4 c2 / m for their hit counts c1 and c2, and the single call returns
    4 (c1 + c2) / (n + m).  The vectorized variant, with its own counts,
    prints the two counts where the single call prints their sum, and
    ends at the same position. *)
Theorem successive_estimates_pool (n m : Z) (w : World A) :
  (0 < n)%Z -> (0 < m)%Z ->
  let c1 := hits_by r_pow (rng w) (pos w) (Z.to_nat n) in
  let c2 := hits_by r_pow (rng w) (pos w + 2 * Z.to_nat n) (Z.to_nat m) in
  let v1 := hits_by r_row_sum (rng w) (pos w) (Z.to_nat n) in
  let v2 := hits_by r_row_sum (rng w) (pos w + 2 * Z.to_nat n) (Z.to_nat m) in
  two_estimates estimate_pi_naive n m w
  = (Return (of_int 4 * of_int c1 / of_int n, of_int 4 * of_int c2 / of_int m),
     snd (estimate_pi_naive (n + m) w)) /\
  fst (estimate_pi_naive (n + m) w)
  = Return (of_int 4 * of_int (c1 + c2) / of_int (n + m)) /\
  stdout (snd (two_estimates estimate_pi_vectorized n m w))
  = stdout w ++ [v1; v2] /\
  stdout (snd (estimate_pi_vectorized (n + m) w))
  = stdout w ++ [(v1 + v2)%Z] /\
  pos (snd (two_estimates estimate_pi_vectorized n m w))
  = pos (snd (estimate_pi_vectorized (n + m) w)).
Proof.
  intros N M0 c1 c2 v1 v2. subst c1 c2 v1 v2.
  unfold two_estimates, bind, ret.
  rewrite !estimate_pi_naive_run, !estimate_pi_vectorized_run.
  rewrite !vector_count_hits_by.
  destruct (Z.ltb_spec n 0) as [K|_]; [lia|].
  destruct (Z.eqb_spec n 0) as [K|_]; [lia|].
  cbn [fst snd rng pos stdout advance].
  rewrite ?estimate_pi_naive_run, ?estimate_pi_vectorized_run.
  rewrite ?vector_count_hits_by.
  destruct (Z.ltb_spec m 0) as [K|_]; [lia|].
  destruct (Z.eqb_spec m 0) as [K|_]; [lia|].
  destruct (Z.ltb_spec (n + m) 0) as [K|_]; [lia|].
  destruct (Z.eqb_spec (n + m) 0) as [K|_]; [lia|].
  cbn [fst snd rng pos stdout advance].
  rewrite Z2Nat.inj_add, !hits_by_app by lia.
  split; [|split; [|split; [|split]]].
  - f_equal. unfold advance. cbn [rng pos stdout]. f_equal. lia.
  - reflexivity.
  - now rewrite <- app_assoc.
  - reflexivity.
  - lia.
Qed.

End Pooling.

Lemma successive_estimates_pool_witness :
  fst (two_estimates estimate_pi_naive 1 2 world64)
  = Return (4%float, 2%float) /\
  fst (estimate_pi_naive 3 world64) = Return (8 / 3)%float /\
  stdout (snd (two_estimates estimate_pi_vectorized 1 2 world64))
  = [1%Z; 1%Z] /\
  stdout (snd (estimate_pi_vectorized 3 world64)) = [2%Z].
Proof.
  destruct (@successive_estimates_pool float _ _ 1%Z 2%Z world64
              ltac:(lia) ltac:(lia)) as (T & P & V2 & V1 & _).
  change (1 + 2)%Z with 3%Z in *.
  rewrite T, P, V2, V1. vm_compute. repeat split; reflexivity.
Defined.

Section EstimatorEdges.

Local Open Scope R_scope.





End EstimatorEdges.

(** X5: with no trial the Julia variant does not fail where the Python
    variants raise: on binary64 its division 0/0 makes the estimate NaN,
    whatever the world, which it leaves untouched (and whatever the C
    library's power, which the Python loop does not reach). *)
Theorem julia_zero_trials_is_nan (P : Power float) (w : World float) :
  estimate_pi_julia 0 w = (Return nan, w) /\
  fst (estimate_pi_naive 0 w) = Raise ZeroDivisionError.
Proof.
  rewrite estimate_pi_julia_run, estimate_pi_naive_run.
  change (Z.to_nat 0) with 0%nat. rewrite hits_0, hits_by_0. cbn [Nat.mul].
  rewrite advance_0. split; reflexivity.
Qed.

(* ------------------------------------------------------------------ *)
(** ** Further properties of the Lorenz fields *)

Section LorenzArrays.

Context {A : Type} `{Number A}.
Local Open Scope num_scope.

(** X6: Python's [lorenz] raises ValueError exactly when the state does not
    have three entries; what it returns has three entries. *)
Theorem lorenz_raises_iff_not_three (u : list A) (t sigma rho beta : A) :
  (lorenz u t sigma rho beta = Raise ValueError <-> length u <> 3%nat) /\
  (forall d, lorenz u t sigma rho beta = Return d ->
             length u = 3%nat /\ length d = 3%nat).
Proof.
  destruct u as [|x [|y [|z [|v u]]]]; cbn; split;
    try (split; [intros _; lia | reflexivity]);
    try (intros d E; discriminate).
  - split; [discriminate | intros L; lia].
  - intros d E. injection E as <-. split; reflexivity.
Qed.

(** X7: the Julia field [f] raises BoundsError exactly when [du], [u] or
    [p] has fewer than three entries.  Otherwise it overwrites the first
    three entries of [du] with the field at the first three entries of [u]
    and [p], keeps the rest of [du], and ignores further entries of [u]
    and [p]: a four-entry state is accepted, where [lorenz] raises. *)
Theorem f_bounds_and_frame (du u p : list A) (t : A) :
  match f du u p t with
  | Raise e =>
      e = BoundsError /\
      (length du < 3 \/ length u < 3 \/ length p < 3)%nat
  | Return d =>
      length d = length du /\
      skipn 3 d = skipn 3 du /\
      exists x y z u' sigma rho beta p',
        u = x :: y :: z :: u' /\
        p = sigma :: rho :: beta :: p' /\
        lorenz [x; y; z] t sigma rho beta = Return (firstn 3 d)
  end.
Proof.
  destruct u as [|x [|y [|z u']]];
    try (cbn; split; [reflexivity | right; left; cbn; lia]).
  destruct p as [|sigma [|rho [|beta p']]];
    try (cbn; split; [reflexivity | right; right; cbn; lia]).
  destruct du as [|a [|b [|c du']]];
    try (cbn; split; [reflexivity | left; cbn; lia]).
  cbn. split; [reflexivity|]. split; [reflexivity|].
  exists x, y, z, u', sigma, rho, beta, p'. repeat split.
Qed.

(** One step of a run on the store: the entries read and the bounds
    checked are known, so the step computes. *)
Ltac store_step :=
  cbn [getindex nth_error setindex length Nat.ltb Nat.leb replace_nth
       fst snd skipn].

Lemma update_same (st : Store) (r : nat) (a : list A) : update st r a r = a.
Proof. unfold update. now rewrite Nat.eqb_refl. Qed.

Lemma update_other (st : Store) (r r' : nat) (a : list A) :
  r' <> r -> update st r a r' = st r'.
Proof.
  intros N. unfold update. destruct (Nat.eqb_spec r' r); congruence.
Qed.

(** X10: [f] reads everything before it writes, so it does not matter
    whether [du], [u] and [p] are the same array: on arrays with three
    entries or more, [du] ends with the field at the values [u] and [p]
    held on entry in its first three entries, its other entries and all
    other arrays are kept, and the result is the one of [f] on the
    contents. *)
Theorem f_store_is_alias_safe (du u p : nat) (t : A) (st : Store)
    (x y z sigma rho beta : A) (u' p' : list A) :
  st u = x :: y :: z :: u' ->
  st p = sigma :: rho :: beta :: p' ->
  (3 <= length (st du))%nat ->
  let st' := snd (f_store du u p t st) in
  fst (f_store du u p t st) = Return tt /\
  st' du = sigma * (y - x) :: x * (rho - z) - y :: x * y - beta * z
             :: skipn 3 (st du) /\
  f (st du) (st u) (st p) t = Return (st' du) /\
  (forall r, r <> du -> st' r = st r).
Proof.
  intros U P L st'. subst st'.
  destruct (st du) as [|a [|b [|c du']]] eqn:D; cbn in L; try lia.
  unfold f_store, jbind, load, store. rewrite U, P. cbn [getindex nth_error].
  rewrite D. repeat progress (store_step; rewrite ?update_same).
  repeat split.
  intros r N. now rewrite !update_other by assumption.
Qed.

(** X8: [lorenz!] on an output array other than the state array, all
    arrays with three entries or more: [du] ends with the field of
    [lorenz_static], which is the field of [lorenz], in its first three
    entries; its other entries and all other arrays are kept. *)
Theorem lorenz_inplace_writes_the_field (du u p : nat) (t : A) (st : Store)
    (x y z sigma rho beta : A) (u' p' : list A) :
  du <> u -> du <> p ->
  st u = x :: y :: z :: u' ->
  st p = sigma :: rho :: beta :: p' ->
  (3 <= length (st du))%nat ->
  let st' := snd (lorenz_inplace du u p t st) in
  fst (lorenz_inplace du u p t st) = Return tt /\
  st' du = svector_entries (lorenz_static (x, y, z) (sigma, rho, beta) t)
             ++ skipn 3 (st du) /\
  lorenz [x; y; z] t sigma rho beta
  = Return (svector_entries (lorenz_static (x, y, z) (sigma, rho, beta) t)) /\
  (forall r, r <> du -> st' r = st r).
Proof.
  intros NU NP U P L st'. subst st'.
  destruct (st du) as [|a [|b [|c du']]] eqn:D; cbn in L; try lia.
  assert (OU : forall s a, update s du a u = s u)
    by (intros; apply update_other; congruence).
  assert (OP : forall s a, update s du a p = s p)
    by (intros; apply update_other; congruence).
  unfold lorenz_inplace, jbind, load, store.
  repeat progress (store_step; rewrite ?update_same, ?OU, ?OP, ?U, ?P, ?D).
  repeat split.
  intros r N. now rewrite !update_other by assumption.
Qed.

(** X9: [lorenz!] called with the state array as its output array.  The
    second line reads the first entry it has just overwritten, and the
    third line the first two: the array ends with
    [d1, d1 (rho - z) - y, d1 d2 - beta z], where [d1 = sigma (y - x)] and
    [d2] is the second entry, not with the field at [x, y, z]. *)
Theorem lorenz_inplace_on_aliased_state (u p : nat) (t : A) (st : Store)
    (x y z sigma rho beta : A) (u' p' : list A) :
  u <> p ->
  st u = x :: y :: z :: u' ->
  st p = sigma :: rho :: beta :: p' ->
  let d1 := sigma * (y - x) in
  let d2 := d1 * (rho - z) - y in
  let d3 := d1 * d2 - beta * z in
  fst (lorenz_inplace u u p t st) = Return tt /\
  snd (lorenz_inplace u u p t st) u = d1 :: d2 :: d3 :: u'.
Proof.
  intros NP U P d1 d2 d3. subst d1 d2 d3.
  assert (OP : forall s a, update s u a p = s p)
    by (intros; apply update_other; congruence).
  unfold lorenz_inplace, jbind, load, store.
  repeat progress (store_step; rewrite ?update_same, ?OP, ?U, ?P).
  split; reflexivity.
Qed.

(** X11: a state array of two entries.  [f] reads the third entry before
    any write: it raises BoundsError and the store is as it was.
    [lorenz!] has written the first entry of [du] by the time its second
    line raises. *)
Theorem short_state_f_atomic_lorenz_inplace_not (du u p : nat) (t : A)
    (st : Store) (x y sigma a : A) (p' du' : list A) :
  du <> u ->
  st u = [x; y] ->
  st p = sigma :: p' ->
  st du = a :: du' ->
  f_store du u p t st = (Raise BoundsError, st) /\
  fst (lorenz_inplace du u p t st) = Raise BoundsError /\
  snd (lorenz_inplace du u p t st) du = sigma * (y - x) :: du'.
Proof.
  intros NU U P D.
  assert (OU : forall s a, update s du a u = s u)
    by (intros; apply update_other; congruence).
  split.
  - unfold f_store, jbind, load. rewrite U. reflexivity.
  - unfold lorenz_inplace, jbind, load, store.
    rewrite U, P, D. store_step. rewrite !OU, U. store_step.
    destruct (update st du (sigma * (y - x) :: du') p) as [|s1 [|rho p'']];
      store_step; now rewrite update_same.
Qed.

End LorenzArrays.

Section LorenzArraysOnBinary64.

Local Open Scope float_scope.

Lemma f_store_is_alias_safe_witness :
  fst (f_store 0 0 1 0 store64) = Return tt /\
  snd (f_store 0 0 1 0 store64) 0%nat = [-10; 28; 0].
Proof.
  destruct (@f_store_is_alias_safe float _ 0%nat 0%nat 1%nat 0 store64
              1 0 0 10 28 (8 / 3) [] []
              eq_refl eq_refl ltac:(simpl; lia)) as (R1 & R2 & _).
  split; [exact R1|]. rewrite R2. vm_compute. reflexivity.
Defined.

Lemma lorenz_inplace_writes_the_field_witness :
  fst (lorenz_inplace 2 0 1 0 store64) = Return tt /\
  snd (lorenz_inplace 2 0 1 0 store64) 2%nat = [-10; 28; 0] /\
  lorenz [1; 0; 0] 0 10 28 (8 / 3) = Return [-10; 28; 0].
Proof.
  destruct (@lorenz_inplace_writes_the_field float _ 2%nat 0%nat 1%nat 0
              store64 1 0 0 10 28 (8 / 3) [] []
              ltac:(lia) ltac:(lia) eq_refl eq_refl ltac:(simpl; lia))
    as (R1 & R2 & R3 & _).
  split; [exact R1|]. rewrite R2, R3. vm_compute. split; reflexivity.
Defined.

Lemma lorenz_inplace_on_aliased_state_witness :
  fst (lorenz_inplace 0 0 1 0 store64) = Return tt /\
  snd (lorenz_inplace 0 0 1 0 store64) 0%nat = [-10; -280; 2800].
Proof.
  destruct (@lorenz_inplace_on_aliased_state float _ 0%nat 1%nat 0 store64
              1 0 0 10 28 (8 / 3) [] []
              ltac:(lia) eq_refl eq_refl) as (R1 & R2).
  split; [exact R1|]. rewrite R2. vm_compute. reflexivity.
Defined.

Lemma short_state_f_atomic_lorenz_inplace_not_witness :
  f_store 2 0 1 0 short_store64 = (Raise BoundsError, short_store64) /\
  fst (lorenz_inplace 2 0 1 0 short_store64) = Raise BoundsError /\
  snd (lorenz_inplace 2 0 1 0 short_store64) 2%nat = [-10; 0; 0].
Proof.
  destruct (@short_state_f_atomic_lorenz_inplace_not float _ 2%nat 0%nat 1%nat
              0 short_store64 1 0 10 0 [28; 8 / 3] [0; 0]
              ltac:(lia) eq_refl eq_refl eq_refl) as (R1 & R2 & R3).
  split; [exact R1|]. split; [exact R2|].
  rewrite R3. vm_compute. reflexivity.
Defined.

End LorenzArraysOnBinary64.

Section LorenzGeometry.

Local Open Scope R_scope.

Ltac field_eq :=
  cbn; apply f_equal;
  repeat (apply (f_equal2 (@cons R)); [try ring|]);
  try reflexivity.

(** X12: the field commutes with the half-turn about the z axis: at
    (-x, -y, z) it is (-dx, -dy, dz); and on the z axis (x = y = 0) it
    points along the axis, with dz = - beta z. *)
Theorem lorenz_half_turn_symmetry (x y z t sigma rho beta : R) :
  lorenz [- x; - y; z] t sigma rho beta
  = Return [- (sigma * (y - x)); - (x * (rho - z) - y); x * y - beta * z] /\
  lorenz [0; 0; z] t sigma rho beta = Return [0; 0; - (beta * z)].
Proof. split; field_eq. Qed.

(** X13: besides the origin the field has the two equilibria
    (a, a, rho - 1) and (-a, -a, rho - 1), a = sqrt (beta (rho - 1)),
    whenever beta (rho - 1) is not negative. *)
Theorem lorenz_equilibria (t sigma rho beta : R) :
  0 <= beta * (rho - 1) ->
  let a := sqrt (beta * (rho - 1)) in
  lorenz [a; a; rho - 1] t sigma rho beta = Return [0; 0; 0] /\
  lorenz [- a; - a; rho - 1] t sigma rho beta = Return [0; 0; 0].
Proof.
  intros P a.
  assert (S : a * a = beta * (rho - 1)) by (apply sqrt_sqrt; exact P).
  split; cbn; apply f_equal;
    repeat (apply (f_equal2 (@cons R)); [try ring|]); try reflexivity.
  - rewrite S. ring.
  - replace (- a * - a) with (a * a) by ring. rewrite S. ring.
Qed.

Lemma lorenz_equilibria_witness :
  lorenz [sqrt (2 * (3 - 1)); sqrt (2 * (3 - 1)); 3 - 1] 0 10 3 2
  = Return [0; 0; 0].
Proof.
  apply (proj1 (@lorenz_equilibria 0 10 3 2 ltac:(lra))).
Defined.

(** X14: for sigma other than 0 there is no further zero of the field:
    where it vanishes, x = y, and either x = 0 and beta z = 0, or
    z = rho - 1 and x^2 = beta (rho - 1). *)
Theorem lorenz_zero_only_at_equilibria (x y z t sigma rho beta : R) :
  sigma <> 0 ->
  lorenz [x; y; z] t sigma rho beta = Return [0; 0; 0] ->
  x = y /\
  ((x = 0 /\ beta * z = 0) \/ (z = rho - 1 /\ x * x = beta * (rho - 1))).
Proof.
  intros S E. cbn in E. injection E as E1 E2 E3.
  assert (XY : x = y).
  { apply Rmult_integral in E1. destruct E1 as [E1|E1]; [contradiction | lra]. }
  subst y. split; [reflexivity|].
  assert (E2' : x * (rho - z - 1) = 0) by (rewrite <- E2; ring).
  apply Rmult_integral in E2'. destruct E2' as [X0|Z1].
  - left. split; [exact X0|]. subst x. lra.
  - right. assert (Z : z = rho - 1) by lra. split; [exact Z|].
    rewrite <- Z. lra.
Qed.

Lemma lorenz_zero_only_at_equilibria_witness :
  (2:R) = 2 /\
  (((2:R) = 0 /\ 2 * 2 = 0) \/ ((2:R) = 3 - 1 /\ 2 * 2 = 2 * (3 - 1))).
Proof.
  apply (@lorenz_zero_only_at_equilibria 2 2 2 0 10 3 2); [lra|].
  cbn. apply f_equal.
  repeat (apply (f_equal2 (@cons R)); [try ring|]); reflexivity.
Defined.

End LorenzGeometry.

(* ------------------------------------------------------------------ *)
(** ** Julia's [add] and [⊕] *)

Section JuliaIntAddition.

Import JuliaInt.
Local Open Scope Z_scope.

Lemma wrap_is_int (z : Z) : is_int (wrap z).
Proof.
  unfold is_int, wrap.
  pose proof (Z.mod_pos_bound (z - typemin) modulus eq_refl) as B.
  unfold typemin, typemax, modulus in *. lia.
Qed.

Lemma wrap_small (z : Z) : is_int z -> wrap z = z.
Proof.
  unfold is_int, wrap. intros I.
  rewrite Z.mod_small; unfold typemin, typemax, modulus in *; lia.
Qed.

Lemma wrap_congruent (z : Z) : exists k, wrap z = z + k * modulus.
Proof.
  exists (- ((z - typemin) / modulus)). unfold wrap.
  pose proof (Z.div_mod (z - typemin) modulus) as D.
  unfold typemin, modulus in *. lia.
Qed.

Lemma wrap_add_wrap_l (a b : Z) : wrap (wrap a + b) = wrap (a + b).
Proof.
  unfold wrap.
  replace ((a - typemin) mod modulus + typemin + b - typemin)
    with ((a - typemin) mod modulus + b) by ring.
  rewrite Zplus_mod_idemp_l. do 2 f_equal. ring.
Qed.

(** X15: [⊕] is [add]; on [Int] it never fails and its result is an [Int]:
    it is the sum up to a multiple of 2^64, and the sum itself exactly when
    the sum is an [Int].  One past the largest [Int] is the smallest. *)
Theorem oplus_wraps_around (x y : Z) :
  oplus x y = add x y /\
  is_int (oplus x y) /\
  (exists k, oplus x y = x + y + k * modulus) /\
  (oplus x y = x + y <-> is_int (x + y)) /\
  oplus typemax 1 = typemin.
Proof.
  unfold oplus, add. split; [reflexivity|].
  split; [apply wrap_is_int|]. split; [apply wrap_congruent|].
  split; [|reflexivity]. split.
  - intros E. rewrite <- E. apply wrap_is_int.
  - apply wrap_small.
Qed.

(** X16: [⊕] is commutative and associative for all arguments, overflow
    included, and 0 is neutral on [Int]. *)
Theorem oplus_laws :
  (forall x y, oplus x y = oplus y x) /\
  (forall x y z, oplus (oplus x y) z = oplus x (oplus y z)) /\
  (forall x, is_int x -> oplus x 0 = x /\ oplus 0 x = x).
Proof.
  unfold oplus, add. split; [|split].
  - intros x y. now rewrite Z.add_comm.
  - intros x y z.
    rewrite wrap_add_wrap_l, (Z.add_comm x (wrap (y + z))), wrap_add_wrap_l.
    f_equal. ring.
  - intros x I. rewrite Z.add_0_r, Z.add_0_l. split; now apply wrap_small.
Qed.

End JuliaIntAddition.

(* ------------------------------------------------------------------ *)
(** ** The bounds of the estimate are attained *)

Section EstimatorExtremes.

Local Open Scope R_scope.







End EstimatorExtremes.
